(** * NIA driver: a shallow embedding of [nia_driver.py]

    The driver is one Python class, [NIADriver], with a constructor and three
    methods ([connect], [read_signal], [disconnect]).  Its state is the
    attribute record of [self]; its effects are calls on a [logging] logger
    and draws from the [random] module.  Methods are embedded as computations
    in a state-and-exception monad over the pair (object, outside world);
    samples are IEEE binary64 numbers, carried by Rocq's primitive floats.

    Layout: the definitions come first (binary64 helpers, the pieces of the
    Python runtime the driver touches, the driver itself), then the facts. *)

From Stdlib Require Import ZArith List Bool String Lia Floats Uint63 DecimalString.
Import ListNotations.
Local Open Scope Z_scope.

(* ================================================================== *)
(** * Part I: definitions                                              *)
(* ================================================================== *)

(** ** Binary64 numbers seen as dyadic rationals *)

Module Binary64.

(** Number of binary digits of a mantissa, as [SpecFloat] counts them. *)
Definition digits (p : positive) : Z := Z.pos (digits2_pos p).

(** A shift register that has lost no bit so far. *)
Definition exact_record (m : Z) : shr_record :=
  {| shr_m := m; shr_r := false; shr_s := false |}.

(** The mantissa [v] moved up to exactly 53 digits. *)
Definition scaled (v : positive) : positive :=
  Z.to_pos (Z.pos v * 2 ^ (53 - digits v)).

(** The normalised binary64 number of sign [s] and magnitude [v * 2^E]. *)
Definition canon (s : bool) (v : positive) (E : Z) : spec_float :=
  S754_finite s (scaled v) (E + digits v - 53).

(** The binary64 number nearest to [v * 2^E] (ties to even). *)
Definition dy (v E : Z) : spec_float := binary_normalize prec emax v E false.

(** Exponents far from both overflow and the subnormal range. *)
Definition exp_ok (E : Z) : Prop := -1000 <= E <= 900.

End Binary64.

(** ** The pieces of the Python runtime that the driver uses *)

Module Py.

(** Exceptions, all of them subclasses of [Exception].  The driver itself
    raises [RuntimeError] and [ConnectionError]; the interpreter raises
    [ValueError] when it will not write an [int] out; [Exception cls msg]
    stands for any other class, such as what code outside the module may
    raise. *)
Inductive exn : Type :=
| RuntimeError (msg : string)
| ConnectionError (msg : string)
| ValueError (msg : string)
| Exception (cls : string) (msg : string).

(** [str(e)] for an exception built from one message. *)
Definition str_exn (e : exn) : string :=
  match e with
  | RuntimeError m | ConnectionError m | ValueError m | Exception _ m => m
  end.

(** How a call ends: with a value, or with a raised exception. *)
Inductive result (A : Type) : Type :=
| Return (a : A)
| Raise (e : exn).

Arguments Return {A} a.
Arguments Raise {A} e.

(** The decimal text of an integer, with [-] before a negative one. *)
Definition decimal (n : Z) : string := NilZero.string_of_int (Z.to_int n).

(** [sys.int_info.default_max_str_digits]: the most decimal digits that
    CPython (3.11 and later, and the security releases of earlier lines)
    writes an [int] out with, unless the interpreter is set up otherwise. *)
Definition int_max_str_digits : Z := 4300.

Definition max_str_digits_msg : string :=
  "Exceeds the limit (4300 digits) for integer string conversion; use sys.set_int_max_str_digits() to increase the limit".

(** [str(n)] for an [int], which is also how an f-string formats it: the
    decimal text, or [ValueError] when [n] has more digits than the limit
    (the sign does not count). *)
Definition str_int (n : Z) : result string :=
  if 10 ^ int_max_str_digits <=? Z.abs n then Raise (ValueError max_str_digits_msg)
  else Return (decimal n).

(** [range(n)]: [0, 1, ..., n-1], empty when [n <= 0]. *)
Definition range (n : Z) : list Z := map Z.of_nat (seq 0 (Z.to_nat n)).

(** [x is None] *)
Definition is_None {A} (x : option A) : bool :=
  match x with
  | None => true
  | Some _ => false
  end.

(** *** [logging] *)

Inductive level : Type := DEBUG | INFO | WARNING | ERROR.

(** What a logger passes on for each call made on it. *)
Record LogRecord : Type := { name : string; levelno : level; msg : string }.

(** A logger, known by the name given to [logging.getLogger]. *)
Record Logger : Type := { logger_name : string }.

Definition getLogger (n : string) : Logger := {| logger_name := n |}.

End Py.

(** *** [random] *)

Module random.

(** The generator behind the module-level functions.  Only the sequence of
    32-bit outputs matters here, so the state is that sequence and a
    position in it; every output sequence is covered, the Mersenne Twister's
    included. *)
Record Random : Type := { words : nat -> Z; index : nat }.

Definition genrand_uint32 (g : Random) : Z * Random :=
  (words g (index g) mod 2 ^ 32, {| words := words g; index := S (index g) |}).

(** [random()]: 53 random bits in [[0.0, 1.0)], computed as CPython does:
    [a = genrand_uint32() >> 5], [b = genrand_uint32() >> 6],
    [(a * 67108864.0 + b) * (1.0 / 9007199254740992.0)]. *)
Definition random (g : Random) : float * Random :=
  let (w1, g1) := genrand_uint32 g in
  let (w2, g2) := genrand_uint32 g1 in
  let a := Z.shiftr w1 5 in
  let b := Z.shiftr w2 6 in
  ((of_uint63 (Uint63.of_Z a) * 67108864 + of_uint63 (Uint63.of_Z b))
     * (1 / 9007199254740992), g2)%float.

(** [uniform(a, b)]: [a + (b - a) * random()]. *)
Definition uniform (a b : float) (g : Random) : float * Random :=
  let (r, g') := random g in
  ((a + (b - a) * r)%float, g').

End random.

Import Py.

(** ** The driver *)

(** [__name__] of the module that defines the class. *)
Definition __name__ : string := "nia_driver".

(** A device handle; the placeholder one is the dict [{"mock": True}]. *)
Definition Handle : Type := list (string * bool).

Definition mock_handle : Handle := [("mock"%string, true)].

(** The attributes of a [NIADriver] object. *)
Record NIADriver : Type := {
  connected : bool;
  sampling_rate : Z;
  _device_handle : option Handle;
  _logger : Logger
}.

(** What lies outside the object: the records passed to the logging system
    so far, and the hidden generator [_inst] of the [random] module. *)
Record World : Type := { handled : list LogRecord; _inst : random.Random }.

Record State : Type := { self : NIADriver; world : World }.

(** Computations that read and write the state and may raise. *)
Definition M (A : Type) : Type := State -> result A * State.

Definition ret {A} (a : A) : M A := fun st => (Return a, st).

Definition raise {A} (e : exn) : M A := fun st => (Raise e, st).

Definition bind {A B} (m : M A) (k : A -> M B) : M B :=
  fun st =>
    match m st with
    | (Return a, st') => k a st'
    | (Raise e, st') => (Raise e, st')
    end.

Declare Scope py_scope.
Delimit Scope py_scope with py.
Notation "x <- m ;; k" := (bind m (fun x => k))
  (at level 61, m at next level, right associativity) : py_scope.
Notation "m ;; k" := (bind m (fun _ => k))
  (at level 61, right associativity) : py_scope.
Local Open Scope py_scope.

(** [try: body  except Exception as e: handler(e)].  The handler starts from
    the state the body had reached when it raised: whatever the body wrote
    before stays written. *)
Definition try_except {A} (body : M A) (handler : exn -> M A) : M A :=
  fun st =>
    match body st with
    | (Return a, st') => (Return a, st')
    | (Raise e, st') => handler e st'
    end.

(** An expression that touches no state: its value, or what it raises. *)
Definition eval {A} (r : result A) : M A := fun st => (r, st).

(** [self.<attr>] *)
Definition getattr {A} (attr : NIADriver -> A) : M A :=
  fun st => (Return (attr (self st)), st).

(** [self._device_handle = h] *)
Definition set_device_handle (h : option Handle) : M unit :=
  fun st =>
    (Return tt,
     {| self := {| connected := connected (self st);
                   sampling_rate := sampling_rate (self st);
                   _device_handle := h;
                   _logger := _logger (self st) |};
        world := world st |}).

(** [self.connected = b] *)
Definition set_connected (b : bool) : M unit :=
  fun st =>
    (Return tt,
     {| self := {| connected := b;
                   sampling_rate := sampling_rate (self st);
                   _device_handle := _device_handle (self st);
                   _logger := _logger (self st) |};
        world := world st |}).

(** [self._logger.<level>(text)] *)
Definition log (lvl : level) (text : string) : M unit :=
  fun st =>
    (Return tt,
     {| self := self st;
        world := {| handled := handled (world st)
                                 ++ [{| name := logger_name (_logger (self st));
                                        levelno := lvl;
                                        msg := text |}];
                    _inst := _inst (world st) |} |}).

(** [random.uniform(a, b)] *)
Definition random_uniform (a b : float) : M float :=
  fun st =>
    let (x, g) := random.uniform a b (_inst (world st)) in
    (Return x,
     {| self := self st;
        world := {| handled := handled (world st); _inst := g |} |}).

(** [[f(x) for x in l]] *)
Fixpoint comprehension {A B} (f : A -> M B) (l : list A) : M (list B) :=
  match l with
  | [] => ret []
  | x :: l' => y <- f x ;; ys <- comprehension f l' ;; ret (y :: ys)
  end.

(** [NIADriver(sampling_rate)]; the default rate is 256. *)
Definition __init__ (sampling_rate : Z) : NIADriver :=
  {| connected := false;
     sampling_rate := sampling_rate;
     _device_handle := None;
     _logger := getLogger __name__ |}.

Definition default_sampling_rate : Z := 256.

(** The body of the [try] in [connect]. *)
Definition connect_try : M bool :=
  set_device_handle (Some mock_handle) ;;
  set_connected true ;;
  log INFO "NIA device connected successfully." ;;
  ret true.

(** The [except Exception as e] clause of [connect]. *)
Definition connect_except (e : exn) : M bool :=
  log ERROR ("Failed to connect to NIA device: " ++ str_exn e)%string ;;
  raise (RuntimeError ("Connection failed: " ++ str_exn e)%string).

Definition connect : M bool :=
  log INFO "Attempting to connect to NIA device..." ;;
  try_except connect_try connect_except.

Definition read_signal (num_samples : Z) : M (list float) :=
  c <- getattr connected ;;
  h <- getattr _device_handle ;;
  if negb c || is_None h then
    raise (ConnectionError
             "Cannot read signal: NIA device is not connected. Call connect() first.")
  else
    count <- eval (str_int num_samples) ;;
    log DEBUG ("Reading " ++ count ++ " samples from NIA.")%string ;;
    comprehension (fun _ => random_uniform (-1) 1) (range num_samples).

Definition disconnect : M unit :=
  c <- getattr connected ;;
  if c then
    log INFO "Disconnecting from NIA device..." ;;
    set_device_handle None ;;
    set_connected false ;;
    log INFO "NIA device disconnected."
  else
    log WARNING "Attempted to disconnect an already disconnected device.".

(** *** The logger's handlers made explicit

    [log] is a logger call as the handlers of the standard library make it:
    the record is passed on and the call returns.  What happens to a record
    is set up by the application, outside this module, and a handler or
    filter of the application's own that raises makes the logger call raise.
    The calls on the logger are the only calls that [connect] makes, so they
    are the only steps of it that can fail at all.  [log_to hd] is a logger
    call under the handler [hd]; [connect_under hd] is [connect], word for
    word, with its logger calls made under [hd]. *)
Definition Handler : Type := LogRecord -> World -> result unit * World.

(** The standard behaviour: keep the record, return. *)
Definition recording : Handler :=
  fun r w => (Return tt, {| handled := handled w ++ [r]; _inst := _inst w |}).

Definition log_to (hd : Handler) (lvl : level) (text : string) : M unit :=
  fun st =>
    let (r, w) := hd {| name := logger_name (_logger (self st));
                        levelno := lvl;
                        msg := text |}
                     (world st) in
    (r, {| self := self st; world := w |}).

Definition connect_try_under (hd : Handler) : M bool :=
  set_device_handle (Some mock_handle) ;;
  set_connected true ;;
  log_to hd INFO "NIA device connected successfully." ;;
  ret true.

Definition connect_except_under (hd : Handler) (e : exn) : M bool :=
  log_to hd ERROR ("Failed to connect to NIA device: " ++ str_exn e)%string ;;
  raise (RuntimeError ("Connection failed: " ++ str_exn e)%string).

Definition connect_under (hd : Handler) : M bool :=
  log_to hd INFO "Attempting to connect to NIA device..." ;;
  try_except (connect_try_under hd) (connect_except_under hd).

(** ** The vocabulary of the specification *)

(** The two states of a session. *)
Definition Connected (s : NIADriver) : Prop :=
  connected s = true /\ _device_handle s <> None.

Definition Disconnected (s : NIADriver) : Prop :=
  connected s = false /\ _device_handle s = None.

(** The invariant of the data model. *)
Definition session_inv (s : NIADriver) : Prop :=
  connected s = true <-> _device_handle s <> None.

(** The objects a program can get by constructing a driver and calling its
    methods, in any order, with any arguments, in any world. *)
Inductive reachable : NIADriver -> Prop :=
| reach_init (rate : Z) : reachable (__init__ rate)
| reach_connect s w :
    reachable s -> reachable (self (snd (connect {| self := s; world := w |})))
| reach_read_signal s w n :
    reachable s -> reachable (self (snd (read_signal n {| self := s; world := w |})))
| reach_disconnect s w :
    reachable s -> reachable (self (snd (disconnect {| self := s; world := w |}))).

(** A sample lies in [[-1.0, 1.0]]. *)
Definition in_unit_range (x : float) : bool :=
  ((-1 <=? x) && (x <=? 1))%float.

(** The session after a successful [connect]. *)
Definition connected_session (s : NIADriver) : NIADriver :=
  {| connected := true;
     sampling_rate := sampling_rate s;
     _device_handle := Some mock_handle;
     _logger := _logger s |}.

(** The world after one more logging call by the session [s]. *)
Definition logged (s : NIADriver) (lvl : level) (text : string) (w : World) : World :=
  {| handled := handled w ++ [{| name := logger_name (_logger s); levelno := lvl; msg := text |}];
     _inst := _inst w |}.

(** Three of the driver's message texts, named for the statements below. *)
Definition attempt_msg : string := "Attempting to connect to NIA device...".

Definition success_msg : string := "NIA device connected successfully.".

Definition not_connected_msg : string :=
  "Cannot read signal: NIA device is not connected. Call connect() first.".

(** A generator to run examples on. *)
Definition example_random : random.Random :=
  {| random.words := fun i => Z.of_nat i * 2654435761 + 40503; random.index := 0 |}.

Definition example_world : World := {| handled := []; _inst := example_random |}.



(** The counts that the interpreter writes out: fewer than 4301 digits. *)
Definition printable (n : Z) : Prop := Z.abs n < 10 ^ int_max_str_digits.

(** The least count it does not write out. *)
Definition huge : Z := 10 ^ int_max_str_digits.

(** The life cycle of the module's usage example: connect, read five
    samples, disconnect. *)
Definition life_cycle : M (list float) :=
  connect ;;
  samples <- read_signal 5 ;;
  disconnect ;;
  ret samples.

(** ** Callers *)

(** [n] successive draws of [random.uniform(a, b)], oldest first. *)
Fixpoint draw_many (a b : float) (n : nat) (g : random.Random)
  : list float * random.Random :=
  match n with
  | O => ([], g)
  | S n' =>
      let (x, g1) := random.uniform a b g in
      let (xs, g2) := draw_many a b n' g1 in
      (x :: xs, g2)
  end.

(** One method call on a driver. *)
Inductive call : Type :=
| Connect
| ReadSignal (num_samples : Z)
| Disconnect.

Definition method (c : call) : M unit :=
  match c with
  | Connect => connect ;; ret tt
  | ReadSignal n => read_signal n ;; ret tt
  | Disconnect => disconnect
  end.

(** A caller that makes the calls of [cs] in turn and carries on after each,
    whether it returned or raised. *)
Definition run_calls (cs : list call) (st : State) : State :=
  fold_left (fun st c => snd (method c st)) cs st.

(** The levels of the records that a call logs, read off the code. *)
Definition logged_levels (c : call) (s : NIADriver) : list level :=
  match c with
  | Connect => [INFO; INFO]
  | ReadSignal n =>
      if negb (connected s) || is_None (_device_handle s) then []
      else if 10 ^ int_max_str_digits <=? Z.abs n then []
      else [DEBUG]
  | Disconnect => if connected s then [INFO; INFO] else [WARNING]
  end.

(** The driver of rate [rate] in each state of the specification's machine:
    disconnected ([false]) or connected ([true]). *)
Definition shape (rate : Z) (b : bool) : NIADriver :=
  if b then connected_session (__init__ rate) else __init__ rate.

(** The machine's transition on a call. *)
Definition next_flag (b : bool) (c : call) : bool :=
  match c with
  | Connect => true
  | ReadSignal _ => b
  | Disconnect => false
  end.

(** *** The usage example at the end of the module

    It runs as a script; besides the driver it writes to standard output. *)

Record Process : Type := { state : State; stdout : list string }.

Definition Script (A : Type) : Type := Process -> result A * Process.

Definition script_bind {A B} (m : Script A) (k : A -> Script B) : Script B :=
  fun p =>
    match m p with
    | (Return a, p') => k a p'
    | (Raise e, p') => (Raise e, p')
    end.

(** A method call made from the script. *)
Definition lift {A} (m : M A) : Script A :=
  fun p =>
    let (r, st) := m (state p) in
    (r, {| state := st; stdout := stdout p |}).

(** [print(text)]: one more line on standard output. *)
Definition print (text : string) : Script unit :=
  fun p => (Return tt, {| state := state p; stdout := stdout p ++ [text] |}).

(** [try: body  finally: final].  [final] runs on both ways out of [body];
    an exception of [body] is raised again after it, unless [final] raises
    one of its own. *)
Definition try_finally {A} (body : Script A) (final : Script unit) : Script A :=
  fun p =>
    match body p with
    | (Return a, p1) =>
        match final p1 with
        | (Return _, p2) => (Return a, p2)
        | (Raise e, p2) => (Raise e, p2)
        end
    | (Raise e, p1) =>
        match final p1 with
        | (Return _, p2) => (Raise e, p2)
        | (Raise e', p2) => (Raise e', p2)
        end
    end.

(** [NIADriver()] in the script: there [__name__] is ["__main__"], and that
    is the name the logger gets. *)
Definition script_driver : NIADriver :=
  {| connected := false;
     sampling_rate := default_sampling_rate;
     _device_handle := None;
     _logger := getLogger "__main__" |}.

Section Main.

(** [str(samples)] for a list of floats, as an f-string formats it: Python's
    shortest round-trip text of each float, which is taken as given. *)
Variable str_floats : list float -> string.

(** The body of [if __name__ == "__main__":], started in the world [w]. *)
Definition main (w : World) : result unit * Process :=
  let driver := script_driver in
  try_finally
    (script_bind (lift connect) (fun _ =>
     script_bind (lift (read_signal 5)) (fun samples =>
     print ("Read samples: " ++ str_floats samples)%string)))
    (lift disconnect)
    {| state := {| self := driver; world := w |}; stdout := [] |}.

End Main.

(** A stand-in for [str_floats] to run examples on: the number of samples. *)
Definition count_floats (xs : list float) : string :=
  decimal (Z.of_nat (List.length xs)).

(* ================================================================== *)
(** * Part II: facts                                                   *)
(* ================================================================== *)

(** ** Exact binary64 arithmetic

    Every number the driver's sampling computes is a dyadic rational with a
    mantissa below [2^53] and a moderate exponent, so each primitive
    operation returns the exact result.  The lemmas below establish this on
    the specification of the primitive operations ([SpecFloat]), to which the
    [FloatAxioms] tie Rocq's primitive floats. *)

Module Binary64Facts.
Import Binary64.


Lemma digits_log2 p : digits p = Z.log2 (Z.pos p) + 1.
Proof.
  unfold digits. induction p as [p IH | p IH | ]; cbn [digits2_pos]; try reflexivity.
  - rewrite Pos2Z.inj_succ, IH. destruct p; reflexivity || (cbn; lia).
  - rewrite Pos2Z.inj_succ, IH. destruct p; reflexivity || (cbn; lia).
Qed.

Lemma digits_pos p : 1 <= digits p.
Proof. unfold digits. lia. Qed.

Lemma digits_bounds p : 2 ^ (digits p - 1) <= Z.pos p < 2 ^ digits p.
Proof.
  rewrite digits_log2. replace (Z.log2 (Z.pos p) + 1 - 1) with (Z.log2 (Z.pos p)) by lia.
  apply Z.log2_spec. lia.
Qed.

Lemma digits_unique p d : 2 ^ (d - 1) <= Z.pos p < 2 ^ d -> digits p = d.
Proof.
  intros H. rewrite digits_log2.
  assert (0 <= d - 1).
  { destruct (Z.le_gt_cases 0 (d - 1)) as [|Hn]; [assumption|].
    assert (d <= 0) by lia. destruct (Z.eq_dec d 0) as [->|].
    - cbn in H. lia.
    - rewrite (Z.pow_neg_r 2 d) in H by lia. lia. }
  rewrite (Z.log2_unique (Z.pos p) (d - 1)); try lia.
  replace (Z.succ (d - 1)) with d by lia. exact H.
Qed.

Lemma digits_shift p j q : 0 <= j -> Z.pos q = Z.pos p * 2 ^ j -> digits q = digits p + j.
Proof.
  intros Hj Hq. rewrite !digits_log2, Hq, Z.log2_mul_pow2 by lia. lia.
Qed.

Lemma digits_le_iff p d : 0 <= d -> (digits p <= d <-> Z.pos p < 2 ^ d).
Proof.
  intros Hd. pose proof (digits_bounds p) as [Hl Hu]. pose proof (digits_pos p) as Hp. split; intros H.
  - eapply Z.lt_le_trans; [exact Hu|]. apply Z.pow_le_mono_r; lia.
  - destruct (Z.le_gt_cases (digits p) d) as [|Hgt]; [assumption|exfalso].
    assert (2 ^ d <= 2 ^ (digits p - 1)) by (apply Z.pow_le_mono_r; lia). lia.
Qed.


Lemma iter_pos_nat {A} (f : A -> A) n x : iter_pos f n x = Nat.iter (Pos.to_nat n) f x.
Proof.
  revert x. induction n as [n IH | n IH | ]; intros x; cbn [iter_pos].
  - rewrite !IH, Pos2Nat.inj_xI. cbn [Nat.mul]. rewrite Nat.add_0_r.
    rewrite <- Nat.iter_add, <- Nat.iter_succ_r. reflexivity.
  - rewrite !IH, Pos2Nat.inj_xO. cbn [Nat.mul]. rewrite Nat.add_0_r.
    rewrite <- Nat.iter_add. reflexivity.
  - reflexivity.
Qed.


Lemma shr_1_zeros n : forall p q,
  Z.pos q = Z.pos p * 2 ^ Z.of_nat n ->
  Nat.iter n shr_1 (exact_record (Z.pos q)) = exact_record (Z.pos p).
Proof.
  induction n as [|n IH]; intros p q Hq.
  - cbn in Hq. cbn. f_equal. lia.
  - rewrite Nat.iter_succ_r. rewrite Nat2Z.inj_succ, Z.pow_succ_r in Hq by lia.
    destruct q as [q | q | ]; try lia.
    cbn [shr_1 exact_record orb]. apply IH. lia.
Qed.

Lemma shr_zeros p q j e :
  0 <= j -> Z.pos q = Z.pos p * 2 ^ j ->
  shr (exact_record (Z.pos q)) e j = (exact_record (Z.pos p), e + j).
Proof.
  intros Hj Hq. destruct j as [|j|j]; try lia; cbn [shr].
  - rewrite Z.add_0_r. f_equal. f_equal. cbn in Hq. lia.
  - rewrite iter_pos_nat. f_equal. apply shr_1_zeros. rewrite positive_nat_Z. exact Hq.
Qed.


Lemma fexp_eq x : fexp prec emax x = Z.max (x - 53) (-1074).
Proof. reflexivity. Qed.

Lemma shr_fexp_zeros p q j e :
  digits p = 53 -> 0 <= j -> Z.pos q = Z.pos p * 2 ^ j -> -1074 <= e + j ->
  shr_fexp prec emax (Z.pos q) e loc_Exact = (exact_record (Z.pos p), e + j).
Proof.
  intros Hp Hj Hq He. unfold shr_fexp. cbn [Zdigits2 shr_record_of_loc].
  fold (digits q). rewrite (digits_shift p j q Hj Hq), Hp, fexp_eq.
  replace (Z.max (53 + j + e - 53) (-1074) - e) with j by lia.
  apply shr_zeros; assumption.
Qed.

Lemma round_aux_exact s p q j e :
  digits p = 53 -> 0 <= j -> Z.pos q = Z.pos p * 2 ^ j -> -1074 <= e + j <= 971 ->
  binary_round_aux prec emax s (Z.pos q) e loc_Exact = S754_finite s p (e + j).
Proof.
  intros Hp Hj Hq He. unfold binary_round_aux.
  rewrite (shr_fexp_zeros p q j e) by (assumption || lia).
  cbn [exact_record shr_m loc_of_shr_record round_nearest_even].
  rewrite (shr_fexp_zeros p p 0 (e + j)) by (assumption || lia).
  cbn [exact_record shr_m]. rewrite Z.add_0_r.
  replace (e + j <=? emax - prec) with true; [reflexivity|].
  symmetry. apply Z.leb_le. change (emax - prec) with 971. lia.
Qed.


Lemma iter_xO_pow2 z d : Z.pos (Pos.iter xO z d) = Z.pos z * 2 ^ Z.pos d.
Proof.
  apply (Pos.iter_ind _ xO z (fun d r => Z.pos r = Z.pos z * 2 ^ Z.pos d)).
  - rewrite Z.pow_1_r. lia.
  - intros p r IH. rewrite Pos2Z.inj_succ, Z.pow_succ_r by lia. lia.
Qed.



Lemma scaled_spec v : digits v <= 53 -> Z.pos (scaled v) = Z.pos v * 2 ^ (53 - digits v).
Proof.
  intros Hv. unfold scaled. rewrite Z2Pos.id; [reflexivity|].
  apply Z.mul_pos_pos; [lia|]. apply Z.pow_pos_nonneg; lia.
Qed.

Lemma digits_scaled v : digits v <= 53 -> digits (scaled v) = 53.
Proof.
  intros Hv. rewrite (digits_shift v (53 - digits v) (scaled v)); [lia|lia|].
  apply scaled_spec, Hv.
Qed.

Lemma binary_round_scaled s v z j e :
  digits v <= 53 -> 0 <= j -> Z.pos z = Z.pos v * 2 ^ j ->
  -1074 <= e + j + digits v - 53 <= 971 ->
  binary_round prec emax s z e = canon s v (e + j).
Proof.
  intros Hv Hj Hz He. unfold binary_round, canon.
  fold (digits z). rewrite (digits_shift v j z Hj Hz), fexp_eq.
  replace (Z.max (digits v + j + e - 53) (-1074)) with (e + (digits v + j - 53)) by lia.
  pose proof (scaled_spec v Hv) as Hs. pose proof (digits_scaled v Hv) as Hd.
  unfold shl_align. replace (e + (digits v + j - 53) - e) with (digits v + j - 53) by lia.
  destruct (digits v + j - 53) as [|d|d] eqn:Hsh.
  - rewrite (round_aux_exact s (scaled v) z 0 e); try lia.
    + f_equal. lia.
    + rewrite Hz, Hs. replace (53 - digits v) with j by lia. lia.
  - rewrite (round_aux_exact s (scaled v) z (Z.pos d) e); try lia.
    + f_equal. lia.
    + rewrite Hz, Hs, <- Z.mul_assoc, <- Z.pow_add_r by lia. do 2 f_equal. lia.
  - rewrite (round_aux_exact s (scaled v) (Pos.iter xO z d) 0 (e + Z.neg d)); try lia.
    + f_equal. lia.
    + rewrite iter_xO_pow2, Hz, Hs, <- Z.mul_assoc, <- Z.pow_add_r by lia.
      rewrite Z.pow_0_r, Z.mul_1_r. do 2 f_equal. lia.
Qed.




Lemma digits_small v : Z.pos v < 2 ^ 53 -> digits v <= 53.
Proof. intros H. apply digits_le_iff; [lia|exact H]. Qed.

Lemma digits_mono p q : Z.pos p <= Z.pos q -> digits p <= digits q.
Proof.
  intros H. pose proof (digits_pos q). apply digits_le_iff; [lia|].
  pose proof (digits_bounds q). lia.
Qed.

Lemma digits_lt p q : digits p < digits q -> Z.pos p < Z.pos q.
Proof.
  intros H. pose proof (digits_bounds p) as [_ Hp]. pose proof (digits_bounds q) as [Hq _].
  pose proof (digits_pos p).
  assert (2 ^ digits p <= 2 ^ (digits q - 1)) by (apply Z.pow_le_mono_r; lia). lia.
Qed.

Lemma dy_pos v E : Z.pos v < 2 ^ 53 -> exp_ok E -> dy (Z.pos v) E = canon false v E.
Proof.
  intros Hv HE. unfold dy, binary_normalize. pose proof (digits_small v Hv). pose proof (digits_pos v).
  rewrite (binary_round_scaled false v v 0 E); unfold exp_ok in HE; try lia.
  now rewrite Z.add_0_r.
Qed.

Lemma dy_neg v E : Z.pos v < 2 ^ 53 -> exp_ok E -> dy (Z.neg v) E = canon true v E.
Proof.
  intros Hv HE. unfold dy, binary_normalize. pose proof (digits_small v Hv). pose proof (digits_pos v).
  rewrite (binary_round_scaled true v v 0 E); unfold exp_ok in HE; try lia.
  now rewrite Z.add_0_r.
Qed.

Lemma dy_scale v j E :
  Z.abs v < 2 ^ 53 -> 0 <= j -> exp_ok E -> dy (v * 2 ^ j) (E - j) = dy v E.
Proof.
  intros Hv Hj HE. assert (Hp : 0 < 2 ^ j) by (apply Z.pow_pos_nonneg; lia).
  destruct v as [|v|v].
  - reflexivity.
  - rewrite dy_pos by (assumption || lia). pose proof (digits_small v Hv). pose proof (digits_pos v).
    destruct (Z.pos v * 2 ^ j) as [|z|z] eqn:Hz; try lia.
    unfold dy, binary_normalize. unfold exp_ok in HE.
    rewrite (binary_round_scaled false v z j (E - j)); try lia. f_equal. lia.
  - rewrite dy_neg by (assumption || lia). pose proof (digits_small v Hv). pose proof (digits_pos v).
    destruct (Z.neg v * 2 ^ j) as [|z|z] eqn:Hz; try lia.
    unfold dy, binary_normalize. unfold exp_ok in HE.
    rewrite (binary_round_scaled true v z j (E - j)); try lia. f_equal. lia.
Qed.


Lemma SFmul_dy v1 v2 E1 E2 :
  0 <= v1 < 2 ^ 53 -> 0 <= v2 < 2 ^ 53 -> v1 * v2 < 2 ^ 53 ->
  exp_ok E1 -> exp_ok E2 -> exp_ok (E1 + E2) ->
  SF64mul (dy v1 E1) (dy v2 E2) = dy (v1 * v2) (E1 + E2).
Proof.
  intros H1 H2 H12 HE1 HE2 HE. destruct v1 as [|v1|v1]; try lia.
  { destruct v2 as [|v2|v2]; try lia; [reflexivity|]. rewrite dy_pos by (lia || assumption). reflexivity. }
  destruct v2 as [|v2|v2]; try lia.
  { rewrite dy_pos by (lia || assumption). reflexivity. }
  cbn [Z.mul] in *. rewrite !dy_pos by (lia || assumption).
  unfold canon, SF64mul, SFmul. cbn [xorb].
  assert (D1 : digits v1 <= 53) by (apply digits_small; lia).
  assert (D2 : digits v2 <= 53) by (apply digits_small; lia).
  assert (D12 : digits (v1 * v2) <= 53) by (apply digits_small; lia).
  assert (M1 : digits v1 <= digits (v1 * v2)) by (apply digits_mono; nia).
  pose proof (digits_pos v2). pose proof (digits_pos (v1 * v2)). unfold exp_ok in *.
  rewrite (round_aux_exact false (scaled (v1 * v2)) (scaled v1 * scaled v2)
             (53 + digits (v1 * v2) - digits v1 - digits v2)); try lia.
  - f_equal. lia.
  - apply digits_scaled, D12.
  - rewrite Pos2Z.inj_mul, !scaled_spec by assumption.
    rewrite Pos2Z.inj_mul, <- !Z.mul_assoc. f_equal.
    rewrite (Z.mul_comm (2 ^ _) (Z.pos v2 * _)), <- !Z.mul_assoc. f_equal.
    rewrite <- !Z.pow_add_r by lia. f_equal. lia.
Qed.


Lemma shl_align_value m e ez :
  ez <= e -> Z.pos (fst (shl_align m e ez)) = Z.pos m * 2 ^ (e - ez).
Proof.
  intros H. unfold shl_align. destruct (ez - e) as [|d|d] eqn:Hd; try lia; cbn [fst].
  - replace (e - ez) with 0 by lia. lia.
  - rewrite iter_xO_pow2. do 2 f_equal. lia.
Qed.

(** The signed mantissa of a normalised number, as the adder aligns it. *)
Lemma aligned_value s v E ez :
  digits v <= 53 -> ez <= E + digits v - 53 ->
  cond_Zopp s (Z.pos (fst (shl_align (scaled v) (E + digits v - 53) ez)))
  = cond_Zopp s (Z.pos v) * 2 ^ (E - ez).
Proof.
  intros Hv Hez. rewrite shl_align_value, scaled_spec by assumption.
  rewrite <- Z.mul_assoc, <- Z.pow_add_r by lia.
  replace (53 - digits v + (E + digits v - 53 - ez)) with (E - ez) by lia.
  destruct s; cbn [cond_Zopp]; lia.
Qed.

Lemma dy_canon v E :
  v <> 0 -> Z.abs v < 2 ^ 53 -> exp_ok E ->
  dy v E = canon (v <? 0) (Z.to_pos (Z.abs v)) E
  /\ cond_Zopp (v <? 0) (Z.pos (Z.to_pos (Z.abs v))) = v
  /\ digits (Z.to_pos (Z.abs v)) <= 53.
Proof.
  intros Hv Hs HE. destruct v as [|v|v]; try lia; cbn [Z.abs Z.to_pos Z.ltb Z.compare cond_Zopp Z.opp].
  - rewrite dy_pos by assumption. repeat split. now apply digits_small.
  - rewrite dy_neg by assumption. repeat split. now apply digits_small.
Qed.

Lemma SFadd_dy v1 v2 E1 E2 :
  Z.abs v1 < 2 ^ 53 -> Z.abs v2 < 2 ^ 53 ->
  Z.abs (v1 * 2 ^ (E1 - Z.min E1 E2) + v2 * 2 ^ (E2 - Z.min E1 E2)) < 2 ^ 53 ->
  exp_ok E1 -> exp_ok E2 ->
  SF64add (dy v1 E1) (dy v2 E2)
  = dy (v1 * 2 ^ (E1 - Z.min E1 E2) + v2 * 2 ^ (E2 - Z.min E1 E2)) (Z.min E1 E2).
Proof.
  intros H1 H2 H12 HE1 HE2.
  assert (HE : exp_ok (Z.min E1 E2)) by (unfold exp_ok in *; lia).
  destruct (Z.eq_dec v1 0) as [->|N1].
  { cbn [Z.mul Z.add]. cbn [Z.mul Z.add] in H12.
    replace (Z.min E1 E2) with (E2 - (E2 - Z.min E1 E2)) at 2 by lia.
    rewrite dy_scale by (assumption || lia).
    destruct (Z.eq_dec v2 0) as [->|N2]; [reflexivity|].
    destruct (dy_canon v2 E2 N2 H2 HE2) as (-> & _ & _). reflexivity. }
  destruct (Z.eq_dec v2 0) as [->|N2].
  { cbn [Z.mul]. cbn [Z.mul] in H12. rewrite Z.add_0_r in *.
    replace (Z.min E1 E2) with (E1 - (E1 - Z.min E1 E2)) at 2 by lia.
    rewrite dy_scale by (assumption || lia).
    destruct (dy_canon v1 E1 N1 H1 HE1) as (-> & _ & _). reflexivity. }
  destruct (dy_canon v1 E1 N1 H1 HE1) as (-> & S1 & D1).
  destruct (dy_canon v2 E2 N2 H2 HE2) as (-> & S2 & D2).
  set (p1 := Z.to_pos (Z.abs v1)) in *. set (p2 := Z.to_pos (Z.abs v2)) in *.
  unfold canon, SF64add, SFadd.
  set (ez := Z.min (E1 + digits p1 - 53) (E2 + digits p2 - 53)).
  pose proof (digits_pos p1). pose proof (digits_pos p2).
  rewrite !aligned_value by (assumption || lia). rewrite S1, S2.
  fold (dy (v1 * 2 ^ (E1 - ez) + v2 * 2 ^ (E2 - ez)) ez).
  set (E := Z.min E1 E2) in *.
  replace (v1 * 2 ^ (E1 - ez) + v2 * 2 ^ (E2 - ez))
    with ((v1 * 2 ^ (E1 - E) + v2 * 2 ^ (E2 - E)) * 2 ^ (E - ez)).
  - replace ez with (E - (E - ez)) at 2 by lia.
    apply dy_scale; [assumption | lia | assumption].
  - rewrite Z.mul_add_distr_r, <- !Z.mul_assoc, <- !Z.pow_add_r by lia.
    do 3 f_equal; lia.
Qed.

Lemma SFcompare_dy v1 v2 E :
  Z.abs v1 < 2 ^ 53 -> Z.abs v2 < 2 ^ 53 -> exp_ok E ->
  SFcompare (dy v1 E) (dy v2 E) = Some (v1 ?= v2).
Proof.
  intros H1 H2 HE.
  assert (Hcmp : forall p q, Z.pos p < 2 ^ 53 -> Z.pos q < 2 ^ 53 ->
     match E + digits p - 53 ?= E + digits q - 53 with
     | Eq => Pos.compare_cont Eq (scaled p) (scaled q)
     | Lt => Lt
     | Gt => Gt
     end = (p ?= q)%positive).
  { intros p q Hp Hq. destruct (Z.compare_spec (E + digits p - 53) (E + digits q - 53)) as [He|He|He].
    - change (Pos.compare_cont Eq (scaled p) (scaled q)) with (Z.pos (scaled p) ?= Z.pos (scaled q)).
      rewrite !scaled_spec by now apply digits_small.
      replace (digits q) with (digits p) by lia.
      rewrite <- Zmult_compare_compat_r; [reflexivity|]. apply Z.lt_gt, Z.pow_pos_nonneg; [lia|].
      pose proof (digits_small p Hp). lia.
    - symmetry. apply Pos.compare_lt_iff. apply Pos2Z.pos_lt_pos, digits_lt. lia.
    - symmetry. apply Pos.compare_gt_iff. apply Pos2Z.pos_lt_pos, digits_lt. lia. }
  destruct v1 as [|p|p], v2 as [|q|q];
    rewrite ?dy_pos, ?dy_neg by assumption; try reflexivity;
    unfold canon, SFcompare; cbn [Z.compare].
  - f_equal. apply Hcmp; assumption.
  - f_equal. rewrite <- (Hcmp p q) by assumption.
    destruct (E + digits p - 53 ?= E + digits q - 53); reflexivity.
Qed.


(** *** From primitive floats to dyadics *)

Lemma Prim2SF_of_uint63 n : 0 <= n < 2 ^ 63 -> Prim2SF (of_uint63 (Uint63.of_Z n)) = dy n 0.
Proof.
  intros Hn. rewrite of_uint63_spec, Uint63.of_Z_spec. unfold dy.
  rewrite Z.mod_small; [reflexivity|]. exact Hn.
Qed.

Lemma Prim2SF_2p26 : Prim2SF 67108864 = dy 1 26.
Proof. reflexivity. Qed.

Lemma Prim2SF_2m53 : Prim2SF (1 / 9007199254740992) = dy 1 (-53).
Proof. reflexivity. Qed.

Lemma Prim2SF_width : Prim2SF (1 - (-1)) = dy 1 1.
Proof. reflexivity. Qed.

Lemma Prim2SF_m1 : Prim2SF (-1) = dy (- 2 ^ 52) (-52).
Proof. reflexivity. Qed.

Lemma Prim2SF_1 : Prim2SF 1 = dy (2 ^ 52) (-52).
Proof. reflexivity. Qed.

Lemma exp_ok_dec E : (-1000 <=? E) = true -> (E <=? 900) = true -> exp_ok E.
Proof. unfold exp_ok. lia. Qed.

(** The arithmetic of [random()] loses nothing: from a 27-bit [a] and a
    26-bit [b] it yields exactly [(a * 2^26 + b) * 2^-53]. *)
Lemma random_expr_dy a b :
  0 <= a < 2 ^ 27 -> 0 <= b < 2 ^ 26 ->
  Prim2SF ((of_uint63 (Uint63.of_Z a) * 67108864 + of_uint63 (Uint63.of_Z b))
             * (1 / 9007199254740992))%float
  = dy (a * 2 ^ 26 + b) (-53).
Proof.
  intros Ha Hb.
  assert (He : forall E, (-1000 <=? E) = true -> (E <=? 900) = true -> exp_ok E) by apply exp_ok_dec.
  rewrite FloatAxioms.mul_spec, FloatAxioms.add_spec, FloatAxioms.mul_spec, !Prim2SF_of_uint63, Prim2SF_2p26, Prim2SF_2m53 by lia.
  rewrite (SFmul_dy a 1 0 26) by (try (apply He; reflexivity); lia).
  rewrite Z.mul_1_r. change (0 + 26) with 26.
  rewrite <- (dy_scale a 26 26) by (try (apply He; reflexivity); lia).
  change (26 - 26) with 0.
  rewrite (SFadd_dy (a * 2 ^ 26) b 0 0); try (apply He; reflexivity);
    change (Z.min 0 0) with 0; change (0 - 0) with 0; rewrite ?Z.pow_0_r, ?Z.mul_1_r; try lia.
  rewrite (SFmul_dy (a * 2 ^ 26 + b) 1 0 (-53)) by (try (apply He; reflexivity); lia).
  rewrite Z.mul_1_r. reflexivity.
Qed.

(** Neither does [a + (b - a) * r] for [a = -1.0], [b = 1.0] and such an [r]:
    it is exactly [2 * r - 1]. *)
Lemma uniform_expr_dy k r :
  0 <= k < 2 ^ 53 -> Prim2SF r = dy k (-53) ->
  Prim2SF (-1 + (1 - (-1)) * r)%float = dy (k - 2 ^ 52) (-52).
Proof.
  intros Hk Hr.
  assert (He : forall E, (-1000 <=? E) = true -> (E <=? 900) = true -> exp_ok E) by apply exp_ok_dec.
  rewrite FloatAxioms.add_spec, FloatAxioms.mul_spec, Hr, Prim2SF_width.
  rewrite (SFmul_dy 1 k 1 (-53)) by (try (apply He; reflexivity); lia).
  rewrite Z.mul_1_l. change (1 + -53) with (-52).
  change (Prim2SF (-1)) with (dy (-1) 0).
  rewrite (SFadd_dy (-1) k 0 (-52)); try (apply He; reflexivity);
    change (Z.min 0 (-52)) with (-52); change (0 - -52) with 52; change (-52 - -52) with 0;
    rewrite ?Z.pow_0_r, ?Z.mul_1_r; try lia.
  f_equal. lia.
Qed.

Lemma leb_dy x y v1 v2 E :
  Prim2SF x = dy v1 E -> Prim2SF y = dy v2 E ->
  Z.abs v1 < 2 ^ 53 -> Z.abs v2 < 2 ^ 53 -> exp_ok E ->
  (x <=? y)%float = (v1 <=? v2).
Proof.
  intros Hx Hy H1 H2 HE. rewrite FloatAxioms.leb_spec, Hx, Hy. unfold SFleb.
  rewrite SFcompare_dy by assumption. unfold Z.leb. destruct (v1 ?= v2); reflexivity.
Qed.

End Binary64Facts.

(** ** Sampling *)

Section Sampling.
Import Binary64 Binary64Facts.

(** A 32-bit word shifted right by [j] has [32 - j] bits. *)
Lemma shiftr_word w j :
  0 <= j <= 32 -> 0 <= Z.shiftr (w mod 2 ^ 32) j < 2 ^ (32 - j).
Proof.
  intros Hj. rewrite Z.shiftr_div_pow2 by lia.
  assert (Hp : 0 < 2 ^ j) by (apply Z.pow_pos_nonneg; lia).
  assert (Hw : 0 <= w mod 2 ^ 32 < 2 ^ 32) by (apply Z.mod_pos_bound; lia).
  split.
  - apply Z.div_pos; lia.
  - apply Z.div_lt_upper_bound; [lia|].
    rewrite <- Z.pow_add_r by lia. replace (j + (32 - j)) with 32 by lia. lia.
Qed.

(** [random()] returns [k * 2^-53] for some 53-bit [k]. *)
Lemma random_dy g :
  exists k, 0 <= k < 2 ^ 53 /\ Prim2SF (fst (random.random g)) = dy k (-53).
Proof.
  unfold random.random, random.genrand_uint32. cbn [fst random.words random.index].
  set (a := Z.shiftr _ 5). set (b := Z.shiftr _ 6).
  assert (Ha : 0 <= a < 2 ^ 27) by (apply (shiftr_word _ 5); lia).
  assert (Hb : 0 <= b < 2 ^ 26) by (apply (shiftr_word _ 6); lia).
  exists (a * 2 ^ 26 + b). split; [lia|]. apply random_expr_dy; assumption.
Qed.

(** [uniform(-1.0, 1.0)] returns [(k - 2^52) * 2^-52] for some 53-bit [k]. *)
Lemma uniform_dy g :
  exists k, 0 <= k < 2 ^ 53
            /\ Prim2SF (fst (random.uniform (-1) 1 g)) = dy (k - 2 ^ 52) (-52).
Proof.
  destruct (random_dy g) as (k & Hk & Hr). exists k. split; [exact Hk|].
  unfold random.uniform. destruct (random.random g) as [r g']. cbn [fst] in *.
  apply uniform_expr_dy; assumption.
Qed.

Lemma uniform_in_unit_range g :
  in_unit_range (fst (random.uniform (-1) 1 g)) = true.
Proof.
  destruct (uniform_dy g) as (k & Hk & Hx). unfold in_unit_range.
  assert (HE : exp_ok (-52)) by (unfold exp_ok; lia).
  rewrite (leb_dy _ _ _ _ _ Prim2SF_m1 Hx), (leb_dy _ _ _ _ _ Hx Prim2SF_1)
    by (assumption || lia).
  apply andb_true_intro. split; apply Z.leb_le; lia.
Qed.

End Sampling.

(** ** What each method does *)

Lemma connect_try_run s w :
  connect_try {| self := s; world := w |}
  = (Return true,
     {| self := connected_session s; world := logged s INFO success_msg w |}).
Proof. reflexivity. Qed.

Lemma connect_run s w :
  connect {| self := s; world := w |}
  = (Return true,
     {| self := connected_session s;
        world := logged s INFO success_msg (logged s INFO attempt_msg w) |}).
Proof. reflexivity. Qed.

Lemma connected_session_Connected s : Connected (connected_session s).
Proof. split; [reflexivity | discriminate]. Qed.

(** Under the standard handlers [connect_under] is [connect]. *)
Lemma connect_under_recording st : connect_under recording st = connect st.
Proof. reflexivity. Qed.



Lemma disconnect_run_connected s w :
  connected s = true ->
  disconnect {| self := s; world := w |}
  = (Return tt,
     {| self := {| connected := false;
                   sampling_rate := sampling_rate s;
                   _device_handle := None;
                   _logger := _logger s |};
        world := logged s INFO "NIA device disconnected."
                   (logged s INFO "Disconnecting from NIA device..." w) |}).
Proof.
  intros Hc. unfold disconnect, bind, getattr. cbn [self]. rewrite Hc. reflexivity.
Qed.

Lemma disconnect_run_disconnected s w :
  connected s = false ->
  disconnect {| self := s; world := w |}
  = (Return tt,
     {| self := s;
        world := logged s WARNING
                   "Attempted to disconnect an already disconnected device." w |}).
Proof.
  intros Hc. unfold disconnect, bind, getattr. cbn [self]. rewrite Hc. reflexivity.
Qed.

Lemma disconnect_returns st : fst (disconnect st) = Return tt.
Proof.
  destruct st as [s w]. destruct (connected s) eqn:Hc.
  - now rewrite disconnect_run_connected.
  - now rewrite disconnect_run_disconnected.
Qed.

Lemma disconnect_clears_flag st : connected (self (snd (disconnect st))) = false.
Proof.
  destruct st as [s w]. destruct (connected s) eqn:Hc.
  - now rewrite disconnect_run_connected.
  - now rewrite disconnect_run_disconnected.
Qed.

Lemma read_signal_run_raise s w n :
  connected s = false \/ _device_handle s = None ->
  read_signal n {| self := s; world := w |}
  = (Raise (ConnectionError not_connected_msg), {| self := s; world := w |}).
Proof.
  intros H. unfold read_signal, bind, getattr. cbn [self].
  destruct H as [-> | ->]; [reflexivity|]. now rewrite orb_true_r.
Qed.

(** The interpreter writes a count out exactly when it is [printable]. *)
Lemma str_int_printable n : printable n -> str_int n = Return (decimal n).
Proof.
  unfold printable, str_int. intros H.
  now rewrite (proj2 (Z.leb_gt (10 ^ int_max_str_digits) (Z.abs n)) H).
Qed.

Lemma str_int_unprintable n :
  ~ printable n -> str_int n = Raise (ValueError max_str_digits_msg).
Proof.
  unfold printable, str_int. intros H.
  now rewrite (proj2 (Z.leb_le (10 ^ int_max_str_digits) (Z.abs n))) by lia.
Qed.

Lemma printable_dec n : {printable n} + {~ printable n}.
Proof. unfold printable. apply Z_lt_dec. Qed.

(** Counts of up to eighteen digits are far within the limit. *)
Lemma printable_small n : Z.abs n < 10 ^ 18 -> printable n.
Proof.
  unfold printable, int_max_str_digits. intros H.
  apply (Z.lt_le_trans _ (10 ^ 18)); [exact H|].
  apply Z.pow_le_mono_r; [reflexivity | discriminate].
Qed.

Lemma huge_pos : 0 < huge.
Proof. unfold huge, int_max_str_digits. apply Z.pow_pos_nonneg; lia. Qed.

Lemma huge_unprintable : ~ printable huge.
Proof. unfold printable. fold huge. pose proof huge_pos. lia. Qed.

Lemma printable_0 : printable 0.
Proof. unfold printable. fold huge. exact huge_pos. Qed.

(** [read_signal] past its guard. *)
Lemma read_signal_connected s w n :
  Connected s ->
  read_signal n {| self := s; world := w |}
  = match str_int n with
    | Return count =>
        (log DEBUG ("Reading " ++ count ++ " samples from NIA.")%string ;;
         comprehension (fun _ => random_uniform (-1) 1) (range n))
          {| self := s; world := w |}
    | Raise e => (Raise e, {| self := s; world := w |})
    end.
Proof.
  intros [Hc Hh]. unfold read_signal, bind at 1 2, getattr. cbn [self].
  rewrite Hc. destruct (_device_handle s) as [h|] eqn:Eh; [|congruence].
  cbn [negb is_None orb]. unfold bind at 1, eval. now destruct (str_int n).
Qed.

(** A count too long to write out stops [read_signal] at its log message,
    before anything is logged or drawn. *)
Lemma read_signal_run_unprintable s w n :
  Connected s -> ~ printable n ->
  read_signal n {| self := s; world := w |}
  = (Raise (ValueError max_str_digits_msg), {| self := s; world := w |}).
Proof.
  intros Hs Hn. now rewrite (read_signal_connected s w n Hs), (str_int_unprintable n Hn).
Qed.

(** The list comprehension of [read_signal]: one draw per element, none of
    which can raise; the object and the log are left alone. *)
Lemma comprehension_uniform {A} (l : list A) : forall s w,
  exists xs g,
    comprehension (fun _ => random_uniform (-1) 1) l {| self := s; world := w |}
    = (Return xs, {| self := s; world := {| handled := handled w; _inst := g |} |})
    /\ List.length xs = List.length l
    /\ Forall (fun x => in_unit_range x = true) xs.
Proof.
  induction l as [|a l IH]; intros s w.
  - exists [], (_inst w). destruct w. repeat split. constructor.
  - cbn [comprehension]. unfold bind at 1. unfold random_uniform at 1. cbn [self world].
    pose proof (uniform_in_unit_range (_inst w)) as Hx.
    destruct (random.uniform (-1) 1 (_inst w)) as [x g1]. cbn [fst] in Hx.
    destruct (IH s {| handled := handled w; _inst := g1 |}) as (xs & g & Hrun & Hlen & Hall).
    exists (x :: xs), g. unfold bind. rewrite Hrun. cbn [handled List.length].
    repeat split; [now rewrite Hlen | now constructor].
Qed.

Lemma read_signal_run s w n :
  Connected s -> printable n ->
  exists xs g,
    read_signal n {| self := s; world := w |}
    = (Return xs,
       {| self := s;
          world := {| handled := handled (logged s DEBUG
                        ("Reading " ++ decimal n ++ " samples from NIA.")%string w);
                      _inst := g |} |})
    /\ List.length xs = Z.to_nat n
    /\ Forall (fun x => in_unit_range x = true) xs.
Proof.
  intros Hs Hn. rewrite (read_signal_connected s w n Hs), (str_int_printable n Hn).
  unfold bind, log. cbn [self world].
  match goal with
  | |- context [comprehension ?f ?l {| self := s; world := ?w' |}] =>
      destruct (comprehension_uniform l s w') as (xs & g & Hrun & Hlen & Hall)
  end.
  exists xs, g. rewrite Hrun. repeat split; [|exact Hall].
  rewrite Hlen. unfold range. now rewrite length_map, length_seq.
Qed.

Lemma read_signal_keeps_self n st : self (snd (read_signal n st)) = self st.
Proof.
  destruct st as [s w].
  destruct (connected s) eqn:Hc; [destruct (_device_handle s) eqn:Hh|].
  - assert (Hs : Connected s) by (split; [assumption | congruence]).
    destruct (printable_dec n) as [Hn|Hn].
    + now destruct (read_signal_run s w n Hs Hn) as (xs & g & -> & _).
    + now rewrite read_signal_run_unprintable.
  - rewrite read_signal_run_raise by now right. reflexivity.
  - rewrite read_signal_run_raise by now left. reflexivity.
Qed.

Lemma range_nonpos n : n <= 0 -> range n = [].
Proof.
  intros H. unfold range. replace (Z.to_nat n) with 0%nat by lia. reflexivity.
Qed.

(** The invariant holds of every object a program can get. *)
Lemma reachable_inv s : reachable s -> session_inv s.
Proof.
  induction 1 as [rate | s w _ _ | s w n _ IH | s w _ IH].
  - unfold session_inv. cbn. split; [discriminate | congruence].
  - rewrite connect_run. cbn [snd self]. unfold session_inv. cbn.
    split; [discriminate | reflexivity].
  - now rewrite read_signal_keeps_self.
  - destruct (connected s) eqn:Hc.
    + rewrite disconnect_run_connected by assumption. unfold session_inv. cbn.
      split; [discriminate | congruence].
    + now rewrite disconnect_run_disconnected.
Qed.

(** ** The claims of the specification *)

(** C1, as amended: on a connected session, [read_signal(num_samples)]
    with [0 <= num_samples < 10^4300] does not raise and returns a list of
    exactly [num_samples] floats, each of them within [-1.0, 1.0]; in
    particular [read_signal(0)] returns the empty list. *)
Theorem read_signal_returns_samples s w :
  Connected s ->
  (forall n, 0 <= n -> printable n ->
     exists xs st',
       read_signal n {| self := s; world := w |} = (Return xs, st')
       /\ Z.of_nat (List.length xs) = n
       /\ Forall (fun x => in_unit_range x = true) xs)
  /\ (exists st', read_signal 0 {| self := s; world := w |} = (Return [], st')).
Proof.
  intros Hs. split.
  - intros n Hn Hp.
    destruct (read_signal_run s w n Hs Hp) as (xs & g & Hrun & Hlen & Hall).
    exists xs. eexists. split; [exact Hrun|]. split; [lia | exact Hall].
  - destruct (read_signal_run s w 0 Hs printable_0) as (xs & g & Hrun & Hlen & _).
    destruct xs; [|discriminate]. eexists. exact Hrun.
Qed.

Lemma read_signal_returns_samples_witness :
  Connected (connected_session (__init__ 256))
  /\ exists xs st',
       read_signal 5 {| self := connected_session (__init__ 256); world := example_world |}
       = (Return xs, st')
       /\ Z.of_nat (List.length xs) = 5
       /\ Forall (fun x => in_unit_range x = true) xs.
Proof.
  split.
  - apply connected_session_Connected.
  - apply (proj1 (read_signal_returns_samples (connected_session (__init__ 256)) example_world
                    (connected_session_Connected _)) 5).
    + discriminate.
    + apply printable_small. reflexivity.
Defined.

(** C1 as first stated does not hold: the count [10^4300] is an integer,
    not negative, and on a connected session [read_signal] raises
    [ValueError] on it, from the f-string of its log message, and returns no
    list. *)
Lemma read_signal_count_too_long :
  Connected (connected_session (__init__ 256))
  /\ 0 <= huge
  /\ read_signal huge {| self := connected_session (__init__ 256); world := example_world |}
     = (Raise (ValueError max_str_digits_msg),
        {| self := connected_session (__init__ 256); world := example_world |}).
Proof.
  split; [apply connected_session_Connected|]. split; [apply Z.lt_le_incl, huge_pos|].
  apply read_signal_run_unprintable; [apply connected_session_Connected | apply huge_unprintable].
Qed.

(** C2: [connected] is true exactly when [_device_handle] is not [None]:
    this holds of a new object, each of [connect], [read_signal] and
    [disconnect] keeps it, and so it holds of every reachable session. *)
Theorem connected_iff_handle :
  (forall rate, session_inv (__init__ rate))
  /\ (forall s w, session_inv s ->
        session_inv (self (snd (connect {| self := s; world := w |}))))
  /\ (forall s w n, session_inv s ->
        session_inv (self (snd (read_signal n {| self := s; world := w |}))))
  /\ (forall s w, session_inv s ->
        session_inv (self (snd (disconnect {| self := s; world := w |}))))
  /\ (forall s, reachable s -> (connected s = true <-> _device_handle s <> None)).
Proof.
  split; [|split; [|split; [|split]]].
  - intros rate. apply reachable_inv. constructor.
  - intros s w _. rewrite connect_run. cbn [snd self].
    pose proof (connected_session_Connected s) as [Hc Hh]. split; intros _; assumption.
  - intros s w n Hs. now rewrite read_signal_keeps_self.
  - intros s w Hs. destruct (connected s) eqn:Hc.
    + rewrite disconnect_run_connected by assumption. unfold session_inv. cbn.
      split; [discriminate | congruence].
    + now rewrite disconnect_run_disconnected.
  - exact reachable_inv.
Qed.

Lemma connected_iff_handle_witness :
  let s := self (snd (disconnect
                  {| self := self (snd (connect {| self := __init__ 256; world := example_world |}));
                     world := example_world |})) in
  reachable s /\ (connected s = true <-> _device_handle s <> None).
Proof.
  assert (H : reachable (self (snd (disconnect
                  {| self := self (snd (connect {| self := __init__ 256; world := example_world |}));
                     world := example_world |})))) by (repeat constructor).
  split; [exact H|].
  exact (proj2 (proj2 (proj2 (proj2 connected_iff_handle))) _ H).
Defined.

(** C3: on a session that is not connected, such as a new one or one just
    disconnected, every [read_signal] raises [ConnectionError] (the
    specification's NotConnected) and yields no sample: nothing is drawn and
    the state is as before the call. *)
Theorem read_signal_not_connected :
  (forall s w n,
      connected s = false \/ _device_handle s = None ->
      read_signal n {| self := s; world := w |}
      = (Raise (ConnectionError not_connected_msg), {| self := s; world := w |}))
  /\ (forall rate w n,
        read_signal n {| self := __init__ rate; world := w |}
        = (Raise (ConnectionError not_connected_msg),
           {| self := __init__ rate; world := w |}))
  /\ (forall st n,
        read_signal n (snd (disconnect st))
        = (Raise (ConnectionError not_connected_msg), snd (disconnect st))).
Proof.
  split; [|split].
  - exact read_signal_run_raise.
  - intros rate w n. apply read_signal_run_raise. now left.
  - intros st n. pose proof (disconnect_clears_flag st) as Hc.
    destruct (snd (disconnect st)) as [s w]. apply read_signal_run_raise. now left.
Qed.

Lemma read_signal_not_connected_witness :
  connected (__init__ 256) = false
  /\ read_signal 5 {| self := __init__ 256; world := example_world |}
     = (Raise (ConnectionError not_connected_msg),
        {| self := __init__ 256; world := example_world |}).
Proof.
  split; [reflexivity|].
  apply (proj1 read_signal_not_connected). left. reflexivity.
Defined.

(** C4: on a disconnected session [connect()] succeeds: it returns [True],
    sets [connected] to [True] and stores a handle that is not [None]. *)
Theorem connect_from_disconnected s w :
  Disconnected s ->
  exists s' w',
    connect {| self := s; world := w |} = (Return true, {| self := s'; world := w' |})
    /\ connected s' = true
    /\ _device_handle s' <> None.
Proof.
  intros _. rewrite connect_run. do 2 eexists. split; [reflexivity|].
  apply connected_session_Connected.
Qed.

Lemma connect_from_disconnected_witness :
  Disconnected (__init__ 256)
  /\ exists s' w',
       connect {| self := __init__ 256; world := example_world |}
       = (Return true, {| self := s'; world := w' |})
       /\ connected s' = true
       /\ _device_handle s' <> None.
Proof.
  assert (H : Disconnected (__init__ 256)) by (split; reflexivity).
  split; [exact H|]. exact (connect_from_disconnected (__init__ 256) example_world H).
Defined.




(** C6: [disconnect()] never raises and leaves [connected] false and, on a
    session that satisfies the invariant of the data model, the handle
    [None]; on a session already disconnected it changes nothing in the
    object; a second [disconnect()] right after the first returns as well and
    changes nothing. *)
Theorem disconnect_idempotent s w :
  let r1 := disconnect {| self := s; world := w |} in
  let r2 := disconnect (snd r1) in
  fst r1 = Return tt
  /\ connected (self (snd r1)) = false
  /\ (session_inv s -> _device_handle (self (snd r1)) = None)
  /\ (connected s = false -> self (snd r1) = s)
  /\ fst r2 = Return tt
  /\ self (snd r2) = self (snd r1).
Proof.
  intros r1 r2. subst r2 r1.
  split; [apply disconnect_returns|]. split; [apply disconnect_clears_flag|].
  split; [|split; [|split; [apply disconnect_returns|]]].
  - intros Hs. destruct (connected s) eqn:Hc.
    + now rewrite disconnect_run_connected.
    + rewrite disconnect_run_disconnected by assumption. cbn [snd self].
      destruct (_device_handle s) eqn:Hh; [|reflexivity].
      enough (false = true) by discriminate. rewrite <- Hc. apply Hs. congruence.
  - intros Hc. now rewrite disconnect_run_disconnected.
  - pose proof (disconnect_clears_flag {| self := s; world := w |}) as Hc.
    destruct (snd (disconnect {| self := s; world := w |})) as [s1 w1]. cbn [self] in *.
    now rewrite disconnect_run_disconnected.
Qed.

Lemma disconnect_idempotent_witness :
  let s := connected_session (__init__ 256) in
  let r1 := disconnect {| self := s; world := example_world |} in
  session_inv s
  /\ fst r1 = Return tt
  /\ connected (self (snd r1)) = false
  /\ _device_handle (self (snd r1)) = None
  /\ fst (disconnect (snd r1)) = Return tt.
Proof.
  assert (Hs : session_inv (connected_session (__init__ 256)))
    by (split; [discriminate | reflexivity]).
  pose proof (disconnect_idempotent (connected_session (__init__ 256)) example_world)
    as (H1 & H2 & H3 & _ & H5 & _).
  exact (conj Hs (conj H1 (conj H2 (conj (H3 Hs) H5)))).
Defined.

(** C7: [read_signal], whether it returns or raises, leaves the session as
    it found it: [connected], [sampling_rate] and [_device_handle] keep
    their values. *)
Theorem read_signal_frame n s w :
  let s' := self (snd (read_signal n {| self := s; world := w |})) in
  s' = s
  /\ connected s' = connected s
  /\ sampling_rate s' = sampling_rate s
  /\ _device_handle s' = _device_handle s.
Proof.
  intros s'. subst s'. rewrite read_signal_keeps_self. cbn [self]. repeat split.
Qed.

(** C8, as amended: on a connected session, [read_signal] with a negative
    count above [-10^4300] does not raise: it logs the request and returns
    the empty list. *)
Theorem read_signal_negative s w n :
  Connected s -> n < 0 -> printable n ->
  read_signal n {| self := s; world := w |}
  = (Return [],
     {| self := s;
        world := logged s DEBUG ("Reading " ++ decimal n ++ " samples from NIA.")%string w |}).
Proof.
  intros Hs Hn Hp. rewrite (read_signal_connected s w n Hs), (str_int_printable n Hp).
  rewrite range_nonpos by lia. reflexivity.
Qed.

Lemma read_signal_negative_witness :
  read_signal (-3) {| self := connected_session (__init__ 256); world := example_world |}
  = (Return [],
     {| self := connected_session (__init__ 256);
        world := logged (connected_session (__init__ 256)) DEBUG
                   "Reading -3 samples from NIA." example_world |}).
Proof.
  exact (read_signal_negative (connected_session (__init__ 256)) example_world (-3)
           (connected_session_Connected _) eq_refl
           (printable_small (-3) eq_refl)).
Defined.

(** C8 as first stated does not hold: the count [-10^4300] is a negative
    integer, and on a connected session [read_signal] raises [ValueError]
    on it instead of returning the empty list. *)
Lemma read_signal_negative_too_long :
  Connected (connected_session (__init__ 256))
  /\ - huge < 0
  /\ read_signal (- huge) {| self := connected_session (__init__ 256); world := example_world |}
     = (Raise (ValueError max_str_digits_msg),
        {| self := connected_session (__init__ 256); world := example_world |}).
Proof.
  split; [apply connected_session_Connected|]. split; [pose proof huge_pos; lia|].
  apply read_signal_run_unprintable; [apply connected_session_Connected|].
  unfold printable. rewrite Z.abs_opp. apply huge_unprintable.
Qed.

(** C9: [connect()] on a session that is already connected succeeds: it
    returns [True] and the session is connected, with a handle, afterwards. *)
Theorem connect_when_connected s w :
  Connected s ->
  exists st',
    connect {| self := s; world := w |} = (Return true, st')
    /\ Connected (self st').
Proof.
  intros _. rewrite connect_run. eexists. split; [reflexivity|].
  apply connected_session_Connected.
Qed.

Lemma connect_when_connected_witness :
  Connected (connected_session (__init__ 256))
  /\ exists st',
       connect {| self := connected_session (__init__ 256); world := example_world |}
       = (Return true, st')
       /\ Connected (self st').
Proof.
  split; [apply connected_session_Connected|].
  exact (connect_when_connected (connected_session (__init__ 256)) example_world
           (connected_session_Connected _)).
Defined.

(** C10: in the shipped code nothing in the [try] of [connect] can raise, so
    its [except] clause never runs: from every state the body returns [True],
    and so does [connect], which therefore never raises. *)
Theorem connect_never_fails st :
  (exists st', connect_try st = (Return true, st'))
  /\ (exists st', connect st = (Return true, st'))
  /\ (forall e st', connect st <> (Raise e, st')).
Proof.
  destruct st as [s w]. rewrite connect_try_run, connect_run.
  split; [eexists; reflexivity|]. split; [eexists; reflexivity|]. discriminate.
Qed.

(** ** The life cycle, run

    A new driver at the default rate is connected, read five times and
    disconnected: the run returns five samples, all in range, and ends
    disconnected, with five records logged. *)
Example life_cycle_run :
  let r := life_cycle {| self := __init__ default_sampling_rate; world := example_world |} in
  match fst r with
  | Return xs => List.length xs = 5%nat /\ forallb in_unit_range xs = true
  | Raise _ => False
  end
  /\ self (snd r) = __init__ default_sampling_rate
  /\ map levelno (handled (world (snd r))) = [INFO; INFO; DEBUG; INFO; INFO].
Proof. vm_compute. repeat split. Qed.

(* ================================================================== *)
(** * Part III: further facts                                          *)
(* ================================================================== *)

(** ** Samples, more closely *)

Section Draws.
Import Binary64 Binary64Facts.

Lemma ltb_dy x y v1 v2 E :
  Prim2SF x = dy v1 E -> Prim2SF y = dy v2 E ->
  Z.abs v1 < 2 ^ 53 -> Z.abs v2 < 2 ^ 53 -> exp_ok E ->
  (x <? y)%float = (v1 <? v2).
Proof.
  intros Hx Hy H1 H2 HE. rewrite FloatAxioms.ltb_spec, Hx, Hy. unfold SFltb.
  rewrite SFcompare_dy by assumption. unfold Z.ltb. destruct (v1 ?= v2); reflexivity.
Qed.

(** A draw of [uniform(-1.0, 1.0)] is at least [-1.0] and stays below [1.0]. *)
Lemma uniform_half_open g :
  (-1 <=? fst (random.uniform (-1) 1 g))%float = true
  /\ (fst (random.uniform (-1) 1 g) <? 1)%float = true.
Proof.
  destruct (uniform_dy g) as (k & Hk & Hx).
  assert (HE : exp_ok (-52)) by (unfold exp_ok; lia).
  rewrite (leb_dy _ _ _ _ _ Prim2SF_m1 Hx), (ltb_dy _ _ _ _ _ Hx Prim2SF_1)
    by (assumption || lia).
  split; [apply Z.leb_le | apply Z.ltb_lt]; lia.
Qed.

End Draws.

Lemma draw_many_length a b n : forall g, List.length (fst (draw_many a b n g)) = n.
Proof.
  induction n as [|n IH]; intros g; cbn [draw_many]; [reflexivity|].
  destruct (random.uniform a b g) as [x g1]. specialize (IH g1).
  destruct (draw_many a b n g1) as [xs g2]. cbn [fst List.length] in *. now rewrite IH.
Qed.

Lemma draw_many_Forall (P : float -> Prop) a b :
  (forall g, P (fst (random.uniform a b g))) ->
  forall n g, Forall P (fst (draw_many a b n g)).
Proof.
  intros HP. induction n as [|n IH]; intros g; cbn [draw_many]; [constructor|].
  pose proof (HP g) as Hx. destruct (random.uniform a b g) as [x g1]. specialize (IH g1).
  destruct (draw_many a b n g1) as [xs g2]. cbn [fst] in *. now constructor.
Qed.

(** Drawing [m + n] times is drawing [m] times, then [n] times more. *)
Lemma draw_many_add a b m : forall n g,
  draw_many a b (m + n) g
  = (fst (draw_many a b m g) ++ fst (draw_many a b n (snd (draw_many a b m g))),
     snd (draw_many a b n (snd (draw_many a b m g)))).
Proof.
  induction m as [|m IH]; intros n g; cbn [draw_many Nat.add].
  - cbn [fst snd app]. now destruct (draw_many a b n g).
  - destruct (random.uniform a b g) as [x g1]. rewrite IH.
    destruct (draw_many a b m g1) as [xs g2]. reflexivity.
Qed.

(** The list comprehension of [read_signal] is [draw_many]. *)
Lemma comprehension_draw_many {A} a b (l : list A) : forall s w,
  comprehension (fun _ => random_uniform a b) l {| self := s; world := w |}
  = (Return (fst (draw_many a b (List.length l) (_inst w))),
     {| self := s;
        world := {| handled := handled w;
                    _inst := snd (draw_many a b (List.length l) (_inst w)) |} |}).
Proof.
  induction l as [|x l IH]; intros s w.
  - destruct w. reflexivity.
  - cbn [comprehension List.length draw_many]. unfold bind at 1. unfold random_uniform at 1.
    cbn [self world]. destruct (random.uniform a b (_inst w)) as [y g1].
    unfold bind. rewrite IH. cbn [handled _inst].
    destruct (draw_many a b (List.length l) g1) as [ys g2]. reflexivity.
Qed.

Lemma length_range n : List.length (range n) = Z.to_nat n.
Proof. unfold range. now rewrite length_map, length_seq. Qed.

(** What [read_signal] does on a connected session, in full. *)
Lemma read_signal_run_draws s w n :
  Connected s -> printable n ->
  read_signal n {| self := s; world := w |}
  = (Return (fst (draw_many (-1) 1 (Z.to_nat n) (_inst w))),
     {| self := s;
        world := {| handled := handled (logged s DEBUG
                      ("Reading " ++ decimal n ++ " samples from NIA.")%string w);
                    _inst := snd (draw_many (-1) 1 (Z.to_nat n) (_inst w)) |} |}).
Proof.
  intros Hs Hn. rewrite (read_signal_connected s w n Hs), (str_int_printable n Hn).
  unfold bind, log. cbn [self world].
  rewrite comprehension_draw_many, length_range. reflexivity.
Qed.

Lemma snd_bind_ret {A} (m : M A) st : snd ((m ;; ret tt) st) = snd (m st).
Proof. unfold bind, ret. destruct (m st) as [[a|e] st']; reflexivity. Qed.

(** ** The two states of a driver *)

Lemma method_shape rate b c w :
  self (snd (method c {| self := shape rate b; world := w |})) = shape rate (next_flag b c).
Proof.
  destruct c as [|n|]; cbn [method next_flag].
  - rewrite snd_bind_ret, connect_run. now destruct b.
  - rewrite snd_bind_ret. apply read_signal_keeps_self.
  - destruct b.
    + now rewrite disconnect_run_connected.
    + now rewrite disconnect_run_disconnected.
Qed.

Lemma reachable_shape s : reachable s -> exists rate b, s = shape rate b.
Proof.
  induction 1 as [rate | s w _ IH | s w n _ IH | s w _ IH].
  - now exists rate, false.
  - destruct IH as (rate & b & ->). exists rate, true.
    rewrite connect_run. now destruct b.
  - destruct IH as (rate & b & ->). exists rate, b. now rewrite read_signal_keeps_self.
  - destruct IH as (rate & b & ->). exists rate, false. destruct b.
    + now rewrite disconnect_run_connected.
    + now rewrite disconnect_run_disconnected.
Qed.


Lemma run_calls_cons c cs st :
  run_calls (c :: cs) st = run_calls cs (snd (method c st)).
Proof. reflexivity. Qed.

(** X2: the driver follows the two-state machine of its life cycle through
    any sequence of calls, whether they return or raise: starting from a new
    driver, the object at the end is the connected one when the last
    [connect]/[disconnect] made was a [connect], and the new one otherwise. *)
Theorem run_calls_state_machine rate cs w :
  self (run_calls cs {| self := __init__ rate; world := w |})
  = shape rate (fold_left next_flag cs false).
Proof.
  change (__init__ rate) with (shape rate false). generalize false as b. revert w.
  induction cs as [|c cs IH]; intros w b; [reflexivity|].
  rewrite run_calls_cons. cbn [fold_left].
  pose proof (method_shape rate b c w) as Hs.
  destruct (snd (method c {| self := shape rate b; world := w |})) as [s1 w1].
  cbn [self] in Hs. subst s1. apply IH.
Qed.

(** X3: samples never reach [1.0]: on a connected session every value that
    [read_signal] returns satisfies [-1.0 <= x < 1.0]; and it does return
    whenever the count is one the interpreter writes out. *)
Theorem samples_half_open s w n :
  Connected s ->
  (printable n ->
   exists xs st', read_signal n {| self := s; world := w |} = (Return xs, st'))
  /\ (forall xs st',
        read_signal n {| self := s; world := w |} = (Return xs, st') ->
        Forall (fun x => (-1 <=? x)%float = true /\ (x <? 1)%float = true) xs).
Proof.
  intros Hs. split.
  - intros Hn. rewrite (read_signal_run_draws s w n Hs Hn). do 2 eexists. reflexivity.
  - intros xs st'. destruct (printable_dec n) as [Hn|Hn].
    + rewrite (read_signal_run_draws s w n Hs Hn). intros [= <- _].
      apply draw_many_Forall. exact uniform_half_open.
    + rewrite (read_signal_run_unprintable s w n Hs Hn). discriminate.
Qed.

Lemma samples_half_open_witness :
  exists xs st',
    read_signal 5 {| self := connected_session (__init__ 256); world := example_world |}
    = (Return xs, st')
    /\ Forall (fun x => (-1 <=? x)%float = true /\ (x <? 1)%float = true) xs.
Proof.
  pose proof (samples_half_open (connected_session (__init__ 256)) example_world 5
                (connected_session_Connected _)) as [Hret Hall].
  destruct (Hret (printable_small 5 eq_refl)) as (xs & st' & Hrun).
  exists xs, st'. split; [exact Hrun | exact (Hall xs st' Hrun)].
Defined.

(** X4: reading in two batches yields the samples of one larger read: on a
    connected session, for [m, n >= 0] with [m + n] a count the interpreter
    writes out, [read_signal(m)] followed by [read_signal(n)] returns lists
    whose concatenation is what [read_signal(m + n)] returns from the same
    start, and both ways leave the generator in the same state. *)
Theorem read_signal_batches s w m n :
  Connected s -> 0 <= m -> 0 <= n -> printable (m + n) ->
  exists xs ys st1 st2 st,
    read_signal m {| self := s; world := w |} = (Return xs, st1)
    /\ read_signal n st1 = (Return ys, st2)
    /\ read_signal (m + n) {| self := s; world := w |} = (Return (xs ++ ys), st)
    /\ _inst (world st) = _inst (world st2).
Proof.
  intros Hs Hm Hn Hp.
  assert (Hpm : printable m) by (unfold printable in *; lia).
  assert (Hpn : printable n) by (unfold printable in *; lia).
  rewrite !(read_signal_run_draws s) by assumption.
  do 5 eexists. split; [reflexivity|].
  rewrite (read_signal_run_draws s) by assumption. split; [reflexivity|].
  cbn [_inst world]. rewrite Z2Nat.inj_add, draw_many_add by assumption.
  split; reflexivity.
Qed.

Lemma read_signal_batches_witness :
  exists xs ys st1 st2 st,
    read_signal 2 {| self := connected_session (__init__ 256); world := example_world |}
    = (Return xs, st1)
    /\ read_signal 3 st1 = (Return ys, st2)
    /\ read_signal (2 + 3) {| self := connected_session (__init__ 256); world := example_world |}
       = (Return (xs ++ ys), st)
    /\ _inst (world st) = _inst (world st2).
Proof.
  apply (read_signal_batches (connected_session (__init__ 256)) example_world 2 3
           (connected_session_Connected _)); try discriminate.
  apply printable_small. reflexivity.
Defined.

(** X5: what [read_signal] returns depends on the generator and the count
    alone: two connected sessions, whatever their attributes and logs, get
    the same samples from equal generators and leave them equal. *)
Theorem read_signal_reproducible s1 s2 w1 w2 n :
  Connected s1 -> Connected s2 -> _inst w1 = _inst w2 ->
  fst (read_signal n {| self := s1; world := w1 |})
  = fst (read_signal n {| self := s2; world := w2 |})
  /\ _inst (world (snd (read_signal n {| self := s1; world := w1 |})))
     = _inst (world (snd (read_signal n {| self := s2; world := w2 |}))).
Proof.
  intros H1 H2 Hg. destruct (printable_dec n) as [Hn|Hn].
  - rewrite (read_signal_run_draws s1 w1 n H1 Hn), (read_signal_run_draws s2 w2 n H2 Hn).
    cbn [fst snd world _inst]. rewrite Hg. split; reflexivity.
  - rewrite (read_signal_run_unprintable s1 w1 n H1 Hn),
      (read_signal_run_unprintable s2 w2 n H2 Hn).
    cbn [fst snd world]. split; [reflexivity | exact Hg].
Qed.

Lemma read_signal_reproducible_witness :
  fst (read_signal 4 {| self := connected_session (__init__ 256); world := example_world |})
  = fst (read_signal 4 {| self := connected_session (__init__ 512);
                          world := logged (__init__ 512) INFO attempt_msg example_world |}).
Proof.
  exact (proj1 (read_signal_reproducible
                  (connected_session (__init__ 256)) (connected_session (__init__ 512))
                  example_world (logged (__init__ 512) INFO attempt_msg example_world) 4
                  (connected_session_Connected _) (connected_session_Connected _) eq_refl)).
Defined.

(** X6: [disconnect] undoes [connect] and, on a reachable session, [connect]
    undoes [disconnect]: a disconnected session that is connected and then
    disconnected is the same object again, and so is a connected one that is
    disconnected and then connected. *)
Theorem connect_disconnect_round_trip s w :
  reachable s ->
  (connected s = false ->
   self (snd (disconnect (snd (connect {| self := s; world := w |})))) = s)
  /\ (connected s = true ->
      self (snd (connect (snd (disconnect {| self := s; world := w |})))) = s).
Proof.
  intros H. destruct (reachable_shape s H) as (rate & b & ->). split; intros Hc.
  - destruct b; [discriminate|]. rewrite connect_run. cbn [snd].
    now rewrite disconnect_run_connected.
  - destruct b; [|discriminate]. rewrite disconnect_run_connected by reflexivity.
    cbn [snd]. now rewrite connect_run.
Qed.

Lemma connect_disconnect_round_trip_witness :
  reachable (__init__ 256)
  /\ self (snd (disconnect (snd (connect {| self := __init__ 256; world := example_world |}))))
     = __init__ 256.
Proof.
  split; [constructor|].
  exact (proj1 (connect_disconnect_round_trip (__init__ 256) example_world (reach_init 256))
           eq_refl).
Defined.

(** ** Logging *)

Lemma handled_logged s lvl text w :
  handled (logged s lvl text w)
  = handled w ++ [{| name := logger_name (_logger s); levelno := lvl; msg := text |}].
Proof. reflexivity. Qed.

(** What one call adds to the log, and that it keeps the logger. *)
Lemma method_logs c s w :
  exists news,
    handled (world (snd (method c {| self := s; world := w |}))) = handled w ++ news
    /\ map levelno news = logged_levels c s
    /\ Forall (fun r => name r = logger_name (_logger s)) news
    /\ _logger (self (snd (method c {| self := s; world := w |}))) = _logger s.
Proof.
  destruct c as [|n|]; cbn [method logged_levels].
  - rewrite snd_bind_ret, connect_run. cbn [snd world self].
    rewrite !handled_logged, <- app_assoc. eexists. split; [reflexivity|].
    repeat split. repeat constructor.
  - rewrite snd_bind_ret.
    assert (Hraise : connected s = false \/ _device_handle s = None ->
                     exists news,
                       handled (world (snd (read_signal n {| self := s; world := w |})))
                       = handled w ++ news
                       /\ map levelno news = []
                       /\ Forall (fun r => name r = logger_name (_logger s)) news
                       /\ _logger (self (snd (read_signal n {| self := s; world := w |})))
                          = _logger s).
    { intros H. rewrite read_signal_run_raise by exact H. exists [].
      cbn [snd world self]. rewrite app_nil_r. repeat split. constructor. }
    destruct (connected s) eqn:Hc; [|apply Hraise; now left].
    destruct (_device_handle s) as [h|] eqn:Hh; [|apply Hraise; now right].
    cbn [negb is_None orb].
    assert (Hs : Connected s) by (split; congruence).
    destruct (10 ^ int_max_str_digits <=? Z.abs n) eqn:Hb.
    + rewrite read_signal_run_unprintable;
        [|exact Hs | unfold printable; apply Z.leb_le in Hb; lia].
      exists []. cbn [snd world self]. rewrite app_nil_r. repeat split. constructor.
    + rewrite read_signal_run_draws; [|exact Hs | unfold printable; now apply Z.leb_gt].
      cbn [snd world self handled]. rewrite handled_logged. eexists. split; [reflexivity|].
      repeat split. repeat constructor.
  - destruct (connected s) eqn:Hc.
    + rewrite disconnect_run_connected by assumption. cbn [snd world self].
      rewrite !handled_logged, <- app_assoc. eexists. split; [reflexivity|].
      repeat split. repeat constructor.
    + rewrite disconnect_run_disconnected by assumption. cbn [snd world self].
      rewrite handled_logged. eexists. split; [reflexivity|].
      repeat split. repeat constructor.
Qed.

Lemma logged_levels_no_error c s : ~ In ERROR (logged_levels c s).
Proof.
  destruct c; cbn [logged_levels];
    repeat match goal with |- context [if ?b then _ else _] => destruct b end;
    cbn; intuition discriminate.
Qed.

(** X7: what each call logs.  [connect] logs two INFO records; [read_signal]
    one DEBUG record when it goes on to read and none when it raises, be it
    for a missing connection or for a count too long to write out;
    [disconnect] two INFO records on a connected session and one WARNING
    otherwise.  Records are appended to the log under the driver's logger
    name, and [connect] and [disconnect] draw nothing from the generator. *)
Theorem log_by_call c s w :
  let st' := snd (method c {| self := s; world := w |}) in
  (exists news,
      handled (world st') = handled w ++ news
      /\ map levelno news = logged_levels c s
      /\ Forall (fun r => name r = logger_name (_logger s)) news)
  /\ match c with
     | ReadSignal _ => True
     | _ => _inst (world st') = _inst w
     end.
Proof.
  intros st'. subst st'. split.
  - destruct (method_logs c s w) as (news & H1 & H2 & H3 & _). now exists news.
  - destruct c as [|n|]; [|exact I|]; cbn [method].
    + now rewrite snd_bind_ret, connect_run.
    + destruct (connected s) eqn:Hc.
      * now rewrite disconnect_run_connected.
      * now rewrite disconnect_run_disconnected.
Qed.

(** X8: through any sequence of calls the log only grows, every record
    added carries the driver's logger name, and none is at ERROR level: the
    shipped driver never reports a failed connection. *)
Theorem never_logs_error cs : forall st,
  exists news,
    handled (world (run_calls cs st)) = handled (world st) ++ news
    /\ Forall (fun r => levelno r <> ERROR
                        /\ name r = logger_name (_logger (self st))) news.
Proof.
  induction cs as [|c cs IH]; intros [s w].
  - exists []. cbn. rewrite app_nil_r. split; [reflexivity | constructor].
  - rewrite run_calls_cons.
    destruct (method_logs c s w) as (n1 & H1 & H2 & H3 & H4).
    destruct (IH (snd (method c {| self := s; world := w |}))) as (n2 & H5 & H6).
    exists (n1 ++ n2). cbn [self world]. rewrite H5, H1, app_assoc. split; [reflexivity|].
    apply Forall_app. split.
    + rewrite Forall_forall in *. intros r Hr. split; [|now apply H3].
      intros He. apply (logged_levels_no_error c s). rewrite <- H2, <- He.
      now apply in_map.
    + rewrite H4 in H6. exact H6.
Qed.

(** ** Calls in sequence *)

(** X9: after [connect()], from any state of the object at all, a
    [read_signal(n)] with a count the interpreter writes out returns: it
    gives [max(n, 0)] samples and leaves the session connected. *)
Theorem connect_then_read s w n :
  printable n ->
  exists xs st',
    read_signal n (snd (connect {| self := s; world := w |})) = (Return xs, st')
    /\ List.length xs = Z.to_nat n
    /\ Connected (self st').
Proof.
  intros Hn. rewrite connect_run. cbn [snd].
  rewrite (read_signal_run_draws _ _ n (connected_session_Connected s) Hn).
  do 2 eexists. split; [reflexivity|]. split; [apply draw_many_length|].
  apply connected_session_Connected.
Qed.

Lemma connect_then_read_witness :
  exists xs st',
    read_signal 5 (snd (connect {| self := __init__ 256; world := example_world |}))
    = (Return xs, st')
    /\ List.length xs = Z.to_nat 5
    /\ Connected (self st').
Proof.
  exact (connect_then_read (__init__ 256) example_world 5
           (printable_small 5 eq_refl)).
Defined.

(** X10: a [try: ... finally: driver.disconnect()] always ends with
    [connected] false, whatever the body does to the driver, and ends the way
    the body ended: with its value, or with its exception raised again,
    since [disconnect] itself never raises. *)
Theorem try_finally_disconnects {A} (body : Script A) p :
  let r := try_finally body (lift disconnect) p in
  connected (self (state (snd r))) = false
  /\ fst r = fst (body p).
Proof.
  intros r. subst r. unfold try_finally, lift.
  destruct (body p) as [[a|e] p1];
    pose proof (disconnect_returns (state p1)) as Hr;
    pose proof (disconnect_clears_flag (state p1)) as Hc;
    destruct (disconnect (state p1)) as [[[]|e'] st]; cbn [fst snd] in *;
    try discriminate; split; assumption || reflexivity.
Qed.

(** X11: the usage example, in any world and whatever the text of a float
    list: it ends without an exception, prints one line, which shows five
    samples, all within [-1.0, 1.0]; the driver is disconnected at the end,
    the very object it was at the start; and the log has grown by INFO,
    INFO, DEBUG, INFO, INFO. *)
Theorem main_run (str_floats : list float -> string) w :
  exists xs p,
    main str_floats w = (Return tt, p)
    /\ stdout p = [("Read samples: " ++ str_floats xs)%string]
    /\ List.length xs = 5%nat
    /\ Forall (fun x => in_unit_range x = true) xs
    /\ self (state p) = script_driver
    /\ map levelno (handled (world (state p)))
       = map levelno (handled w) ++ [INFO; INFO; DEBUG; INFO; INFO].
Proof.
  exists (fst (draw_many (-1) 1 5 (_inst w))). eexists.
  unfold main, try_finally, script_bind, lift, print. cbn [state stdout].
  rewrite connect_run. cbv beta iota zeta. cbn [state stdout].
  rewrite (read_signal_run_draws _ _ 5 (connected_session_Connected script_driver))
    by (apply printable_small; reflexivity).
  cbv beta iota zeta. cbn [state stdout].
  rewrite disconnect_run_connected by reflexivity. cbv beta iota zeta.
  split; [reflexivity|]. cbn [stdout state self world app].
  split; [reflexivity|]. split; [apply draw_many_length|].
  split; [apply draw_many_Forall, uniform_in_unit_range|]. split; [reflexivity|].
  rewrite !handled_logged. cbn [handled]. rewrite ?handled_logged.
  rewrite !map_app. cbn [map levelno]. rewrite <- !app_assoc. reflexivity.
Qed.

(** The usage example, run: with the stand-in text for the samples it
    prints one line and returns. *)
Example main_example :
  let r := main count_floats example_world in
  fst r = Return tt /\ stdout (snd r) = ["Read samples: 5"%string].
Proof. vm_compute. split; reflexivity. Qed.
